(** * The tile-pyramid generator of [scripts/generate_tiles.py]

    A shallow embedding of the [ReforgerTileGenerator] class and of [main]:
    - [Py]: the part of the Python runtime the script relies on (exceptions,
      integer floor division, binary64 floats, [math.log2], [math.ceil]);
    - [Image]: images as pixel functions, [Image.new] and [Image.paste], and the
      interface of the operations whose result the imaging library decides
      ([crop], [resize], the JPEG encoder);
    - the output directory as a finite map from [(zoom, x, y)] to tile
      contents, together with the directories, [metadata.json],
      [leaflet-config.js] and the lines printed;
    - the methods of the class as programs in a state-and-exception monad. *)

From stdpp Require Import gmap strings list.
From Stdlib Require Import ZArith QArith Reals Lia Lra.
From Stdlib Require Import Floats.SpecFloat.

Open Scope Z_scope.

(** ** Python runtime *)

Module Py.

(** The exception classes that occur in the script or are raised by the
    built-in operations it uses. *)
Inductive exn :=
| FileNotFoundError
| OSError
| ValueError
| ZeroDivisionError
| OverflowError
| MemoryError
| EOFError.

Inductive result (A : Type) :=
| Ok (a : A)
| Raise (e : exn).

Arguments Ok {A} a.
Arguments Raise {A} e.


#[global] Instance result_ret : MRet result := λ A a, Ok a.

#[global] Instance result_bind : MBind result := λ A B k r,
  match r with
  | Ok a => k a
  | Raise e => Raise e
  end.

(** [range(start, stop)] and [range(stop)]. *)
Definition range2 (start stop : Z) : list Z := seqZ start (stop - start).
Definition range (stop : Z) : list Z := range2 0 stop.

(** [a // b] on [int]: the quotient rounded towards minus infinity. *)
Definition floordiv (a b : Z) : result Z :=
  if b =? 0 then Raise ZeroDivisionError else Ok (a / b).

(** *** Floats: IEEE 754 binary64 *)

Definition prec : Z := 53.
Definition emax : Z := 1024.
Definition float : Type := spec_float.

(** [float(n)] for an [int]: rounded to nearest, ties to even; an [int] beyond
    the range of the format raises [OverflowError]. *)
Definition int_to_float (n : Z) : result float :=
  match binary_normalize prec emax n 0 false with
  | S754_infinity _ => Raise OverflowError
  | f => Ok f
  end.

(** [a / b] on two [int]s: the exact quotient, rounded once. *)
Definition true_div (a b : Z) : result float :=
  if b =? 0 then Raise ZeroDivisionError
  else if a =? 0 then Ok (S754_zero (b <? 0))
  else
    let '(q, e, l) := SFdiv_core_binary prec emax (Z.abs a) 0 (Z.abs b) 0 in
    match binary_round_aux prec emax (xorb (a <? 0) (b <? 0)) q e l with
    | S754_infinity _ => Raise OverflowError
    | f => Ok f
    end.

Definition float_is_zero (f : float) : bool :=
  match f with S754_zero _ => true | _ => false end.

(** [x * y] and [x / y] on floats. *)
Definition float_mul (x y : float) : float := SFmul prec emax x y.

Definition float_div (x y : float) : result float :=
  if float_is_zero y then Raise ZeroDivisionError else Ok (SFdiv prec emax x y).

(** [n * x], [x / n] and [n / x] with an [int] [n] and a float [x]: the [int]
    is converted first. *)
Definition int_mul_float (n : Z) (x : float) : result float :=
  nf ← int_to_float n; Ok (float_mul nf x).

Definition float_div_int (x : float) (n : Z) : result float :=
  nf ← int_to_float n; float_div x nf.

Definition int_div_float (n : Z) (x : float) : result float :=
  nf ← int_to_float n; float_div nf x.

(** [int(x)] on a float: the fractional part is dropped. *)
Definition float_int (x : float) : result Z :=
  match x with
  | S754_zero _ => Ok 0
  | S754_infinity _ => Raise OverflowError
  | S754_nan => Raise ValueError
  | S754_finite s m e =>
      Ok (cond_Zopp s (if 0 <=? e then Z.pos m * 2 ^ e else Z.pos m / 2 ^ (- e)))
  end.

(** [round(x)] on a float: to the nearest integer, ties to the even one.  The
    script never calls it; the specification of the base tiler does. *)
Definition float_round (x : float) : result Z :=
  match x with
  | S754_zero _ => Ok 0
  | S754_infinity _ => Raise OverflowError
  | S754_nan => Raise ValueError
  | S754_finite s m e =>
      Ok (cond_Zopp s
            (if 0 <=? e then Z.pos m * 2 ^ e
             else
               let d := 2 ^ (- e) in
               let q := Z.pos m / d in
               let r := Z.pos m mod d in
               if 2 * r <? d then q
               else if d <? 2 * r then q + 1
               else if Z.even q then q else q + 1))
  end.

(** The rational number a finite float stands for. *)
Definition float_value (x : float) : option Q :=
  match x with
  | S754_zero _ => Some 0%Q
  | S754_finite s m e =>
      Some (if 0 <=? e then inject_Z (cond_Zopp s (Z.pos m * 2 ^ e))
            else Qmake (cond_Zopp s (Z.pos m)) (Z.to_pos (2 ^ (- e))))
  | _ => None
  end.

(** *** [math.log2] and [math.ceil]

    [math.log2 n] is taken as the real base-2 logarithm of [n].  Of that real
    number the script only ever takes the ceiling, so it is represented by its
    integer part together with the information whether it is an integer.
    The rounding of the logarithm to binary64 is not part of this model. *)
Definition real_log2 (x : R) : R := (ln x / ln 2)%R.

Record log2_value := Log2 { log2_floor : Z; log2_integral : bool }.

Definition math_log2 (n : Z) : result log2_value :=
  if n <=? 0 then Raise ValueError
  else Ok (Log2 (Z.log2 n) (n =? 2 ^ Z.log2 n)).

Definition math_ceil (v : log2_value) : Z :=
  if log2_integral v then log2_floor v else log2_floor v + 1.

End Py.

Export Py.

(** ** Imaging library *)

Module Image.

Definition color : Type := Z * Z * Z.

Definition black : color := (0, 0, 0).

(** An RGB image: its size and the colour of each pixel. *)
Record t := Build { width : Z; height : Z; getpixel : Z → Z → color }.

Definition size (im : t) : Z * Z := (width im, height im).

(** [Image.new('RGB', (w, h))]: every pixel is black. *)
Definition new (w h : Z) : t := Build w h (λ _ _, black).

(** [im.paste(src, (x, y))]: the pixels of [src] replace those of [im] in the
    rectangle with upper left corner [(x, y)]. *)
Definition paste (im src : t) (x y : Z) : t :=
  Build (width im) (height im)
    (λ i j,
       if (x <=? i) && (i <? x + width src) && (y <=? j) && (j <? y + height src)
       then getpixel src (i - x) (j - y)
       else getpixel im i j).

(** The operations whose outcome the library decides: [crop] with a box
    [(x0, y0, x1, y1)] (left, upper, right, lower), [resize] with the Lanczos filter, and the
    JPEG encoder at a given quality, which gives the pixels a later
    [Image.open] reads back.  Each of them may raise. *)
Class Library := {
  crop : t → Z * Z * Z * Z → result t;
  resize : t → Z * Z → result t;
  save_jpeg : Z → t → result t;
}.

End Image.

(** ** The file system and the console *)

(** A file the script is given as its source: decodable or not. *)
Inductive file :=
| Readable (im : Image.t)
| Unreadable.

(** The lines the script prints that tell what it did. *)
Inductive message :=
| GeneratingLOD (zoom : Z)
| ErrorLoadingSource (e : exn)
| ErrorProcessingTile (tile_x tile_y : Z) (e : exn)
| GeneratedBaseTiles (total_tiles : Z)
| GeneratedTiles (count zoom : Z)
| SourceNotFound
| OperationCancelled
| MemoryErrorMessage
| ErrorMessage (e : exn)
| Success.

Module ZoomLevel.
Record t := Build { zoom : Z; tilesPerAxis : Z; totalTiles : Z; metersPerTile : Z }.
End ZoomLevel.

Module Metadata.
Record t := Build {
  mapName : string;
  mapSizeKm : Z;
  mapSizeM : Z;
  tileSizePx : Z;
  metersPerTile : Z;
  tilesPerAxis : Z;
  maxZoom : Z;
  resolutionCmPerPixel : float;
  bounds_sw : Z * Z;
  bounds_ne : Z * Z;
  zoomLevels : list ZoomLevel.t;
}.

Definition append_zoomLevel (m : t) (l : ZoomLevel.t) : t :=
  Build (mapName m) (mapSizeKm m) (mapSizeM m) (tileSizePx m) (metersPerTile m)
    (tilesPerAxis m) (maxZoom m) (resolutionCmPerPixel m) (bounds_sw m) (bounds_ne m)
    (zoomLevels m ++ [l]).
End Metadata.

Module LeafletConfig.
Record t := Build {
  scale_factor : float;
  MAP_SIZE_M : Z;
  TILE_SIZE_PX : Z;
  METERS_PER_TILE : Z;
  MAX_ZOOM : Z;
  MIN_ZOOM : Z;
  EDGE_TO_CENTER_OFFSET : float;
}.
End LeafletConfig.

(** The state the script acts on.  [files] are the files outside the output
    directory, by path.  The output directory holds [dirs] (each directory by
    its path components below the output directory, [[]] being the output
    directory itself), the tile [{zoom}/{x}/{y}.jpg] under key [(zoom, x, y)],
    [metadata.json] and [leaflet-config.js]. *)
Record fs := Fs {
  files : gmap string file;
  dirs : gset (list Z);
  tiles : gmap (Z * Z * Z) Image.t;
  metadata : option Metadata.t;
  leaflet_config : option LeafletConfig.t;
  stdout : list message;
}.

Definition set_files (f : gmap string file → gmap string file) (s : fs) : fs :=
  Fs (f (files s)) (dirs s) (tiles s) (metadata s) (leaflet_config s) (stdout s).
Definition set_dirs (f : gset (list Z) → gset (list Z)) (s : fs) : fs :=
  Fs (files s) (f (dirs s)) (tiles s) (metadata s) (leaflet_config s) (stdout s).
Definition set_tiles (f : gmap (Z * Z * Z) Image.t → gmap (Z * Z * Z) Image.t) (s : fs) : fs :=
  Fs (files s) (dirs s) (f (tiles s)) (metadata s) (leaflet_config s) (stdout s).
Definition set_metadata (m : option Metadata.t) (s : fs) : fs :=
  Fs (files s) (dirs s) (tiles s) m (leaflet_config s) (stdout s).
Definition set_leaflet_config (c : option LeafletConfig.t) (s : fs) : fs :=
  Fs (files s) (dirs s) (tiles s) (metadata s) c (stdout s).
Definition set_stdout (f : list message → list message) (s : fs) : fs :=
  Fs (files s) (dirs s) (tiles s) (metadata s) (leaflet_config s) (f (stdout s)).

(** ** Programs: state and exceptions

    A program runs from a state to a result or an exception, and to the state
    it leaves behind: what was written before an exception stays written. *)
Definition prog (A : Type) : Type := fs → result A * fs.

#[global] Instance prog_ret : MRet prog := λ A a s, (Ok a, s).

#[global] Instance prog_bind : MBind prog := λ A B k m s,
  match m s with
  | (Ok a, s') => k a s'
  | (Raise e, s') => (Raise e, s')
  end.

Definition lift {A} (r : result A) : prog A := λ s, (r, s).

Definition raise {A} (e : exn) : prog A := lift (Raise e).

Definition gets {A} (f : fs → A) : prog A := λ s, (Ok (f s), s).

Definition modify (f : fs → fs) : prog unit := λ s, (Ok tt, f s).

(** [try: m except Exception as e: handler e]. *)
Definition try_except {A} (m : prog A) (handler : exn → prog A) : prog A := λ s,
  match m s with
  | (Raise e, s') => handler e s'
  | r => r
  end.

(** A [for] loop that threads the variables it assigns. *)
Fixpoint foldM {A B} (body : A → B → prog A) (a : A) (l : list B) : prog A :=
  match l with
  | [] => mret a
  | x :: l => a ← body a x; foldM body a l
  end.

Definition for_each {B} (l : list B) (body : B → prog unit) : prog unit :=
  foldM (λ _ x, body x) tt l.

Definition print (m : message) : prog unit := modify (set_stdout (λ out, out ++ [m])).

(** [os.path.exists] and [Image.open] on a file outside the output directory. *)
Definition path_exists (path : string) : prog bool :=
  gets (λ s, bool_decide (is_Some (files s !! path))).

Definition image_open (path : string) : prog Image.t := λ s,
  match files s !! path with
  | Some (Readable im) => (Ok im, s)
  | Some Unreadable => (Raise OSError, s)
  | None => (Raise FileNotFoundError, s)
  end.

(** [os.makedirs(d, exist_ok=True)]: the directory and those above it. *)
Fixpoint prefixes {A} (l : list A) : list (list A) :=
  [] :: match l with
        | [] => []
        | x :: l => (x ::.) <$> prefixes l
        end.

Definition makedirs (d : list Z) : prog unit :=
  modify (set_dirs (λ ds, ds ∪ list_to_set (prefixes d))).

(** [os.path.exists], [Image.open] and [save(path, "JPEG", quality=...)] on a
    tile of the output directory. *)
Definition tile_exists (k : Z * Z * Z) : prog bool :=
  gets (λ s, bool_decide (is_Some (tiles s !! k))).

Definition tile_open (k : Z * Z * Z) : prog Image.t := λ s,
  match tiles s !! k with
  | Some im => (Ok im, s)
  | None => (Raise FileNotFoundError, s)
  end.

Definition tile_save `{Image.Library} (k : Z * Z * Z) (quality : Z) (im : Image.t) : prog unit :=
  stored ← lift (Image.save_jpeg quality im);
  modify (set_tiles (λ ts, <[k := stored]> ts)).

(** [input(...)]: [stdin] tells whether the line read, stripped and in lower
    case, is ['y']; there may be no line to read. *)
Definition input (stdin : option bool) : prog bool :=
  match stdin with
  | Some b => mret b
  | None => raise EOFError
  end.

(** ** [class ReforgerTileGenerator] *)

Record ReforgerTileGenerator := Generator {
  source_image_path : string;
  output_dir : string;
  map_size_km : Z;
  map_size_m : Z;
  tile_size_px : Z;
  meters_per_tile : Z;
  tiles_per_axis : Z;
  max_zoom : Z;
}.

(** [math.ceil(math.log2(self.tiles_per_axis))] *)
Definition _calculate_max_zoom (tiles_per_axis : Z) : result Z :=
  v ← math_log2 tiles_per_axis; Ok (math_ceil v).

(** The constructor.  Of the banner it prints, the line with the resolution
    divides by [tile_size_px]. *)
Definition __init__ (source_image_path output_dir : string)
    (map_size_km tile_size_px meters_per_tile : Z) : result ReforgerTileGenerator :=
  let map_size_m := map_size_km * 1000 in
  tiles_per_axis ← floordiv map_size_m meters_per_tile;
  max_zoom ← _calculate_max_zoom tiles_per_axis;
  _ ← true_div (meters_per_tile * 100) tile_size_px;
  Ok (Generator source_image_path output_dir map_size_km map_size_m tile_size_px
        meters_per_tile tiles_per_axis max_zoom).

(** [pixels_per_meter = source_width / self.map_size_m] and
    [tile_source_size = int(self.meters_per_tile * pixels_per_meter)] *)
Definition tile_source_size (source_width map_size_m meters_per_tile : Z) : result Z :=
  pixels_per_meter ← true_div source_width map_size_m;
  scaled ← int_mul_float meters_per_tile pixels_per_meter;
  float_int scaled.

(** The crop box of the base tile [(tile_x, tile_y)]. *)
Definition crop_box (tile_x tile_y tile_source_size source_width source_height : Z)
    : Z * Z * Z * Z :=
  let source_x := tile_x * tile_source_size in
  let source_y := tile_y * tile_source_size in
  (Z.max 0 source_x,
   Z.max 0 source_y,
   Z.min (source_x + tile_source_size) source_width,
   Z.min (source_y + tile_source_size) source_height).

(** [half_size = self.tile_size_px // 2] *)
Definition half_size (self : ReforgerTileGenerator) : Z := tile_size_px self / 2.

Section Generator.
Context `{lib : Image.Library}.

(** The body of the [try] of the base tiler: crop, resize unless the size is
    the tile size already, save. *)
Definition base_tile (self : ReforgerTileGenerator) (source_img : Image.t)
    (tile_x tile_y : Z) (box : Z * Z * Z * Z) : prog unit :=
  tile_img ← lift (Image.crop source_img box);
  tile_img ← (if bool_decide (Image.size tile_img ≠ (tile_size_px self, tile_size_px self))
              then lift (Image.resize tile_img (tile_size_px self, tile_size_px self))
              else mret tile_img);
  tile_save (0, tile_x, tile_y) 85 tile_img.

(** What the body of the [try] stores for a tile, or the exception that makes
    the base tiler skip it. *)
Definition render_base_tile (self : ReforgerTileGenerator) (source_img : Image.t)
    (box : Z * Z * Z * Z) : result Image.t :=
  tile_img ← Image.crop source_img box;
  tile_img ← (if bool_decide (Image.size tile_img ≠ (tile_size_px self, tile_size_px self))
              then Image.resize tile_img (tile_size_px self, tile_size_px self)
              else Ok tile_img);
  Image.save_jpeg 85 tile_img.

Definition _generate_base_tiles (self : ReforgerTileGenerator) : prog unit :=
  found ← path_exists (source_image_path self);
  if negb found then raise FileNotFoundError
  else
    source_img ← try_except (image_open (source_image_path self))
                   (λ e, print (ErrorLoadingSource e);; raise e);
    let source_width := Image.width source_img in
    let source_height := Image.height source_img in
    tile_source_size ← lift (tile_source_size source_width (map_size_m self)
                               (meters_per_tile self));
    makedirs [0];;
    let total_tiles := tiles_per_axis self * tiles_per_axis self in
    for_each (range (tiles_per_axis self)) (λ tile_x,
      makedirs [0; tile_x];;
      for_each (range (tiles_per_axis self)) (λ tile_y,
        let box := crop_box tile_x tile_y tile_source_size source_width source_height in
        try_except (base_tile self source_img tile_x tile_y box)
          (λ e, print (ErrorProcessingTile tile_x tile_y e))));;
    print (GeneratedBaseTiles total_tiles).

(** One of the four quadrants of a combined tile. *)
Definition combine_quadrant (self : ReforgerTileGenerator) (prev_zoom src_x src_y : Z)
    (combined_img : Image.t) (dx dy : Z) : prog Image.t :=
  let half_size := half_size self in
  let src_tile_x := src_x + dx in
  let src_tile_y := src_y + dy in
  found ← tile_exists (prev_zoom, src_tile_x, src_tile_y);
  if found : bool then
    src_tile ← tile_open (prev_zoom, src_tile_x, src_tile_y);
    src_tile ← lift (Image.resize src_tile (half_size, half_size));
    let paste_x := dx * half_size in
    let paste_y := dy * half_size in
    mret (Image.paste combined_img src_tile paste_x paste_y)
  else mret combined_img.

(** The tile [(zoom, tile_x, tile_y)] before it is saved. *)
Definition combine_tile (self : ReforgerTileGenerator) (zoom tile_x tile_y : Z)
    : prog Image.t :=
  let prev_zoom := zoom - 1 in
  let combined_img := Image.new (tile_size_px self) (tile_size_px self) in
  let src_x := tile_x * 2 in
  let src_y := tile_y * 2 in
  foldM (λ combined_img dx,
    foldM (λ combined_img dy,
      combine_quadrant self prev_zoom src_x src_y combined_img dx dy)
      combined_img (range 2))
    combined_img (range 2).

Definition _generate_zoom_level (self : ReforgerTileGenerator) (zoom : Z) : prog unit :=
  makedirs [zoom];;
  let tiles_this_level := tiles_per_axis self / 2 ^ zoom in
  if tiles_this_level <? 1 then mret tt
  else
    for_each (range tiles_this_level) (λ tile_x,
      makedirs [zoom; tile_x];;
      for_each (range tiles_this_level) (λ tile_y,
        combined_img ← combine_tile self zoom tile_x tile_y;
        tile_save (zoom, tile_x, tile_y) 85 combined_img));;
    print (GeneratedTiles (tiles_this_level * tiles_this_level) zoom).

(** One entry of ["zoomLevels"]. *)
Definition zoom_level_entry (self : ReforgerTileGenerator) (zoom : Z) : ZoomLevel.t :=
  let tiles_at_zoom := Z.max 1 (tiles_per_axis self / 2 ^ zoom) in
  ZoomLevel.Build zoom tiles_at_zoom (tiles_at_zoom * tiles_at_zoom)
    (meters_per_tile self * 2 ^ zoom).

Definition _generate_metadata (self : ReforgerTileGenerator) : prog unit :=
  resolution ← lift (true_div (meters_per_tile self * 100) (tile_size_px self));
  let metadata :=
    Metadata.Build "Everon" (map_size_km self) (map_size_m self) (tile_size_px self)
      (meters_per_tile self) (tiles_per_axis self) (max_zoom self) resolution
      (0, 0) (map_size_m self, map_size_m self) [] in
  let metadata :=
    foldl (λ metadata zoom, Metadata.append_zoomLevel metadata (zoom_level_entry self zoom))
      metadata (range (max_zoom self + 1)) in
  modify (set_metadata (Some metadata)).

Definition _generate_leaflet_config (self : ReforgerTileGenerator) : prog unit :=
  scale_factor ← lift (a ← true_div (tile_size_px self) 256;
                       b ← float_div_int a (meters_per_tile self);
                       int_div_float 1 b);
  offset ← lift (true_div (meters_per_tile self) 2);
  modify (set_leaflet_config
            (Some (LeafletConfig.Build scale_factor (map_size_m self) (tile_size_px self)
                     (meters_per_tile self) (max_zoom self) 0 offset))).

(** The statistics divide the total size by the number of [.jpg] files. *)
Definition _print_statistics (self : ReforgerTileGenerator) : prog unit :=
  total_files ← gets (λ s, size (tiles s));
  if bool_decide (total_files = 0%nat) then raise ZeroDivisionError else mret tt.

(** Step 2 of [generate_all_tiles]: the loop over the zoom levels. *)
Definition generate_zoom_levels (self : ReforgerTileGenerator) : prog unit :=
  for_each (range2 1 (max_zoom self + 1)) (λ zoom,
    print (GeneratingLOD zoom);;
    _generate_zoom_level self zoom).

Definition generate_all_tiles (self : ReforgerTileGenerator) : prog unit :=
  makedirs [];;
  print (GeneratingLOD 0);;
  _generate_base_tiles self;;
  generate_zoom_levels self;;
  _generate_metadata self;;
  _generate_leaflet_config self;;
  _print_statistics self.

(** ** [main] *)

Record Args := {
  args_source_image : string;
  args_output : string;
  args_size : Z;
  args_tile_size : Z;
  args_meters_per_tile : Z;
  args_max_source_size : option Z;
  args_force : bool;
}.

(** [os.path.splitext(path)[0]] *)
Variable splitext_root : string → string.

(** The branch of [main] that writes a smaller copy of the source and
    returns its path. *)
Definition resize_source (source_image : string) (width height max_source_size : Z)
    : prog string :=
  source_img ← image_open source_image;
  new_size ← lift (if height <? width
                   then q ← true_div (height * max_source_size) width;
                        new_height ← float_int q;
                        Ok (max_source_size, new_height)
                   else q ← true_div (width * max_source_size) height;
                        new_width ← float_int q;
                        Ok (new_width, max_source_size));
  resized_img ← lift (Image.resize source_img new_size);
  let resized_path := (splitext_root source_image +:+ "_resized.jpg")%string in
  stored ← lift (Image.save_jpeg 95 resized_img);
  modify (set_files (λ fl, <[resized_path := Readable stored]> fl));;
  mret resized_path.

(** [main] returns the exit code. *)
Definition main (args : Args) (stdin : option bool) : prog Z :=
  found ← path_exists (args_source_image args);
  if negb found then print SourceNotFound;; mret 1
  else
    try_except
      (img ← image_open (args_source_image args);
       let width := Image.width img in
       let height := Image.height img in
       let total_pixels := width * height in
       proceed ← (if (300000000 <? total_pixels) && negb (args_force args)
                  then input stdin else mret true);
       if negb proceed then print OperationCancelled;; mret 1
       else
         source_image ←
           match args_max_source_size args with
           | Some max_source_size =>
               if negb (max_source_size =? 0) && (max_source_size <? Z.max width height)
               then resize_source (args_source_image args) width height max_source_size
               else mret (args_source_image args)
           | None => mret (args_source_image args)
           end;
         generator ← lift (__init__ source_image (args_output args) (args_size args)
                             (args_tile_size args) (args_meters_per_tile args));
         generate_all_tiles generator;;
         print Success;;
         mret 0)
      (λ e, match e with
            | MemoryError => print MemoryErrorMessage;; mret 1
            | _ => print (ErrorMessage e);; mret 1
            end).

End Generator.

(** ** Notions the specification is stated with *)



Definition positive_area (box : Z * Z * Z * Z) : Prop :=
  let '(x0, y0, x1, y1) := box in x0 < x1 ∧ y0 < y1.


(** The crop window size as the specification words it:
    [round(meters_per_tile * pixels_per_meter)]. *)
Definition spec_tile_source_size_px (source_width map_size_m meters_per_tile : Z) : result Z :=
  pixels_per_meter ← true_div source_width map_size_m;
  scaled ← int_mul_float meters_per_tile pixels_per_meter;
  float_round scaled.

(** Every pixel of the image has colour [c]. *)
Definition solid (c : Image.color) (im : Image.t) : Prop :=
  ∀ i j, 0 ≤ i < Image.width im → 0 ≤ j < Image.height im → Image.getpixel im i j = c.


Definition zoom_of (k : Z * Z * Z) : Z := k.1.1.

(** The tiles of one zoom level. *)
Definition tiles_at (zoom : Z) (s : fs) : gmap (Z * Z * Z) Image.t :=
  filter (λ kv, zoom_of kv.1 = zoom) (tiles s).

(** The tiles of level [zoom] are the same before and after. *)
Definition same_tiles_at (zoom : Z) (s s' : fs) : Prop := tiles_at zoom s' = tiles_at zoom s.

Definition is_generating_lod (m : message) : bool :=
  match m with GeneratingLOD _ => true | _ => false end.

(** The zoom levels announced on the console, in order. *)
Definition announced_lods (s : fs) : list message := filter is_generating_lod (stdout s).

(** The console announces the same zoom levels before and after. *)
Definition same_announced_lods (s s' : fs) : Prop := announced_lods s' = announced_lods s.

(** ** Outcomes of the tilers *)

Section Outcomes.
Context `{lib : Image.Library}.

(** What the base tiler, started in [s0], has done for cell [(x, y)] in [s']:
    the tile holds what the body of the [try] stores, or the body raised, the
    tile is as it was in [s0] and the error has been printed. *)
Definition base_cell_done (self : ReforgerTileGenerator) (source_img : Image.t) (ts : Z)
    (s0 s' : fs) (x y : Z) : Prop :=
  match render_base_tile self source_img
          (crop_box x y ts (Image.width source_img) (Image.height source_img)) with
  | Ok stored => tiles s' !! (0, x, y) = Some stored
  | Raise e =>
      tiles s' !! (0, x, y) = tiles s0 !! (0, x, y) ∧ ErrorProcessingTile x y e ∈ stdout s'
  end.

(** The invariant of the loops of the base tiler over the cells in [visited]. *)
Definition base_tiles_inv (self : ReforgerTileGenerator) (source_img : Image.t) (ts : Z)
    (s0 : fs) (visited : Z → Z → Prop) (s' : fs) : Prop :=
  (∀ x y e,
     render_base_tile self source_img
       (crop_box x y ts (Image.width source_img) (Image.height source_img)) = Raise e →
     tiles s' !! (0, x, y) = tiles s0 !! (0, x, y)) ∧
  (∀ x y, visited x y → base_cell_done self source_img ts s0 s' x y).

(** One quadrant of a combined tile, given the source tile if there is one. *)
Definition with_quadrant (self : ReforgerTileGenerator) (combined_img : Image.t)
    (src : option Image.t) (dx dy : Z) : result Image.t :=
  let half_size := half_size self in
  match src with
  | Some src_tile =>
      src_tile ← Image.resize src_tile (half_size, half_size);
      Ok (Image.paste combined_img src_tile (dx * half_size) (dy * half_size))
  | None => Ok combined_img
  end.

(** The combined tile as a function of the four source tiles. *)
Definition combined_image (self : ReforgerTileGenerator) (src : Z → Z → option Image.t)
    : result Image.t :=
  im ← with_quadrant self (Image.new (tile_size_px self) (tile_size_px self)) (src 0 0) 0 0;
  im ← with_quadrant self im (src 0 1) 0 1;
  im ← with_quadrant self im (src 1 0) 1 0;
  with_quadrant self im (src 1 1) 1 1.

(** The source tiles of tile [(zoom, x, y)] in state [s]. *)
Definition source_tiles (zoom x y : Z) (s : fs) (dx dy : Z) : option Image.t :=
  tiles s !! (zoom - 1, x * 2 + dx, y * 2 + dy).


End Outcomes.

(** ** Reasoning about programs *)

(** Every run of [m] relates the state it starts from to the one it leaves. *)
Definition preserves {A} (R : fs → fs → Prop) (m : prog A) : Prop :=
  ∀ s, R s (m s).2.

(** ** A library to run the generator with

    [crop] checks the box as the library does and pads with black outside
    the source; [resize] samples the nearest pixel; the encoder is lossless. *)
Module Simple.

Definition crop (im : Image.t) (box : Z * Z * Z * Z) : result Image.t :=
  let '(x0, y0, x1, y1) := box in
  if (x1 <? x0) || (y1 <? y0) then Raise ValueError
  else
    Ok (Image.Build (x1 - x0) (y1 - y0)
          (λ i j,
             let x := x0 + i in
             let y := y0 + j in
             if (0 <=? x) && (x <? Image.width im) && (0 <=? y) && (y <? Image.height im)
             then Image.getpixel im x y
             else Image.black)).

Definition resize (im : Image.t) (size : Z * Z) : result Image.t :=
  let '(w, h) := size in
  if (w <? 1) || (h <? 1) then Raise ValueError
  else
    Ok (Image.Build w h
          (λ i j, Image.getpixel im (i * Image.width im / w) (j * Image.height im / h))).

Definition save_jpeg (quality : Z) (im : Image.t) : result Image.t := Ok im.

Definition library : Image.Library := Image.Build_Library crop resize save_jpeg.

(** An image of one colour, and one whose pixel [(i, j)] has red [i] and green [j]. *)
Definition plain (c : Image.color) (w h : Z) : Image.t := Image.Build w h (λ _ _, c).

Definition gradient (w h : Z) : Image.t := Image.Build w h (λ i j, (i, j, 0)).

Definition white : Image.color := (255, 255, 255).

Definition empty_fs : fs := Fs ∅ ∅ ∅ None None [].

(** A state with the source image at ["map.png"] and nothing else. *)
Definition source_fs (im : Image.t) : fs :=
  Fs {["map.png"%string := Readable im]} ∅ ∅ None None [].

Definition splitext_root (path : string) : string := path.

End Simple.

(** * Properties *)

(** ** The Python runtime *)


Lemma elem_of_range2 (start stop z : Z) : z ∈ range2 start stop ↔ start ≤ z < stop.
Proof. unfold range2. rewrite elem_of_seqZ. lia. Qed.

Lemma elem_of_range (stop z : Z) : z ∈ range stop ↔ 0 ≤ z < stop.
Proof. unfold range. rewrite elem_of_range2. lia. Qed.

Lemma floordiv_ok (a b : Z) : b ≠ 0 → floordiv a b = Ok (a / b).
Proof. intros H. unfold floordiv. by destruct (Z.eqb_spec b 0). Qed.



(** The real logarithm to base 2 of an integer, between two integers. *)
Lemma ln_2_pos : (0 < ln 2)%R.
Proof. pose proof ln_lt_2. lra. Qed.

Lemma real_log2_pow2 (k : Z) : 0 ≤ k → real_log2 (IZR (2 ^ k)) = IZR k.
Proof.
  intros Hk. unfold real_log2.
  rewrite <- (Z2Nat.id k) at 1 by done. rewrite <- pow_IZR.
  rewrite ln_pow by lra. rewrite INR_IZR_INZ, Z2Nat.id by done.
  field. pose proof ln_2_pos. lra.
Qed.

Lemma real_log2_lt (x y : R) : (0 < x)%R → (x < y)%R → (real_log2 x < real_log2 y)%R.
Proof.
  intros Hx Hxy. unfold real_log2. apply Rmult_lt_compat_r.
  - apply Rinv_0_lt_compat, ln_2_pos.
  - by apply ln_increasing.
Qed.


(** The value [math_log2] returns stands for the real logarithm: its integer
    part is the floor, and it is flagged integral exactly for the powers of
    two. *)
Lemma math_log2_real (n : Z) :
  1 ≤ n →
  ∃ v, math_log2 n = Ok v ∧
       (IZR (log2_floor v) <= real_log2 (IZR n))%R ∧
       (real_log2 (IZR n) < IZR (log2_floor v) + 1)%R ∧
       (log2_integral v = true ↔ real_log2 (IZR n) = IZR (log2_floor v)).
Proof.
  intros Hn. unfold math_log2. destruct (Z.leb_spec n 0) as [|_]; [lia|].
  eexists. split; [reflexivity|]. cbn.
  pose proof (Z.log2_nonneg n) as Hk.
  destruct (Z.log2_spec n ltac:(lia)) as [Hlo Hhi].
  assert (0 < 2 ^ Z.log2 n) as Hpos by (apply Z.pow_pos_nonneg; lia).
  assert (real_log2 (IZR n) < IZR (Z.log2 n) + 1)%R as Hup.
  { replace (IZR (Z.log2 n) + 1)%R with (IZR (Z.succ (Z.log2 n)))
      by (rewrite <- Z.add_1_r, plus_IZR; lra).
    rewrite <- (real_log2_pow2 (Z.succ (Z.log2 n))) by lia.
    apply real_log2_lt; apply IZR_lt; lia. }
  destruct (Z.eqb_spec n (2 ^ Z.log2 n)) as [Heq|Hne].
  - assert (real_log2 (IZR n) = IZR (Z.log2 n)) as Hval
      by (rewrite Heq at 1; by apply real_log2_pow2).
    split; [lra|]. split; [done|]. done.
  - assert (IZR (Z.log2 n) < real_log2 (IZR n))%R as Hlt.
    { rewrite <- (real_log2_pow2 (Z.log2 n)) at 1 by done.
      apply real_log2_lt; apply IZR_lt; lia. }
    split; [lra|]. split; [done|]. split; [done|]. lra.
Qed.


(** ** The grid of a generator *)















(** ** Running programs *)

Lemma run_bind {A B} (m : prog A) (k : A → prog B) (s : fs) :
  (m ≫= k) s = match m s with
               | (Ok a, s') => k a s'
               | (Raise e, s') => (Raise e, s')
               end.
Proof. reflexivity. Qed.

Lemma run_ret {A} (a : A) (s : fs) : (mret a : prog A) s = (Ok a, s).
Proof. reflexivity. Qed.

Lemma run_lift_bind {A B} (r : result A) (k : A → prog B) (s : fs) :
  (lift r ≫= k) s = match r with Ok a => k a s | Raise e => (Raise e, s) end.
Proof. by destruct r. Qed.

Lemma foldM_app {A B} (body : A → B → prog A) (a : A) (l1 l2 : list B) (s : fs) :
  foldM body a (l1 ++ l2) s =
  match foldM body a l1 s with
  | (Ok a', s') => foldM body a' l2 s'
  | (Raise e, s') => (Raise e, s')
  end.
Proof.
  revert a s. induction l1 as [|x l1 IH]; intros a s; [done|].
  cbn [app foldM]. rewrite !run_bind.
  destruct (body a x s) as [[a'|e] s']; [apply IH|done].
Qed.

(** A loop whose body never raises and keeps an invariant that is indexed by
    the elements already visited. *)
Lemma foldM_returns {A B} (I : list B → A → fs → Prop) (body : A → B → prog A)
    (l : list B) (a : A) (s : fs) :
  I [] a s →
  (∀ visited x a s, x ∈ l → I visited a s →
     ∃ a' s', body a x s = (Ok a', s') ∧ I (visited ++ [x]) a' s') →
  ∃ a' s', foldM body a l s = (Ok a', s') ∧ I l a' s'.
Proof.
  intros Hinit Hbody.
  enough (∀ visited a s, I visited a s →
            ∃ a' s', foldM body a l s = (Ok a', s') ∧ I (visited ++ l) a' s')
    as Hgen by exact (Hgen [] a s Hinit).
  clear a s Hinit. induction l as [|x l IH]; intros visited a s HI.
  - exists a, s. by rewrite app_nil_r.
  - destruct (Hbody visited x a s) as (a1 & s1 & Hrun & HI1); [left|done|].
    destruct (IH (λ v y a s Hy, Hbody v y a s (list_elem_of_further _ _ _ Hy))
                (visited ++ [x]) a1 s1 HI1) as (a2 & s2 & Hrun2 & HI2).
    exists a2, s2. cbn [foldM]. rewrite run_bind, Hrun, Hrun2.
    split; [done|]. by rewrite <- app_assoc in HI2.
Qed.

Lemma for_each_returns {B} (I : list B → fs → Prop) (body : B → prog unit)
    (l : list B) (s : fs) :
  I [] s →
  (∀ visited x s, x ∈ l → I visited s →
     ∃ s', body x s = (Ok tt, s') ∧ I (visited ++ [x]) s') →
  ∃ s', for_each l body s = (Ok tt, s') ∧ I l s'.
Proof.
  intros Hinit Hbody.
  destruct (foldM_returns (λ v _ s, I v s) (λ _ x, body x) l tt s Hinit)
    as ([] & s' & Hrun & HI).
  - intros visited x [] s0 Hx HI. destruct (Hbody visited x s0 Hx HI) as (s1 & ? & ?).
    by exists tt, s1.
  - by exists s'.
Qed.

(** *** Relations every step of a program keeps *)

Section Preserves.
Context (R : fs → fs → Prop) `{!PreOrder R}.

Lemma preserves_ret {A} (a : A) : preserves R (mret a : prog A).
Proof. intros s. reflexivity. Qed.

Lemma preserves_lift {A} (r : result A) : preserves R (lift r).
Proof. intros s. reflexivity. Qed.

Lemma preserves_raise {A} (e : exn) : preserves R (raise e : prog A).
Proof. intros s. reflexivity. Qed.

Lemma preserves_gets {A} (f : fs → A) : preserves R (gets f).
Proof. intros s. reflexivity. Qed.

Lemma preserves_modify (f : fs → fs) : (∀ s, R s (f s)) → preserves R (modify f).
Proof. intros H s. apply H. Qed.

Lemma preserves_bind {A B} (m : prog A) (k : A → prog B) :
  preserves R m → (∀ a, preserves R (k a)) → preserves R (m ≫= k).
Proof.
  intros Hm Hk s. rewrite run_bind. specialize (Hm s).
  destruct (m s) as [[a|e] s']; cbn in *; [|done].
  etrans; [exact Hm|apply Hk].
Qed.

Lemma preserves_try_except {A} (m : prog A) (handler : exn → prog A) :
  preserves R m → (∀ e, preserves R (handler e)) → preserves R (try_except m handler).
Proof.
  intros Hm Hh s. unfold try_except. specialize (Hm s).
  destruct (m s) as [[a|e] s']; cbn in *; [done|].
  etrans; [exact Hm|apply Hh].
Qed.

Lemma preserves_foldM {A B} (body : A → B → prog A) (a : A) (l : list B) :
  (∀ a x, x ∈ l → preserves R (body a x)) → preserves R (foldM body a l).
Proof.
  revert a. induction l as [|x l IH]; intros a Hbody; [apply preserves_ret|].
  cbn [foldM]. apply preserves_bind; [apply Hbody; left|].
  intros a'. apply IH. intros a'' y Hy. apply Hbody. by right.
Qed.

Lemma preserves_for_each {B} (body : B → prog unit) (l : list B) :
  (∀ x, x ∈ l → preserves R (body x)) → preserves R (for_each l body).
Proof. intros H. apply preserves_foldM. intros _ x Hx. by apply H. Qed.

Lemma preserves_if {A} (b : bool) (m1 m2 : prog A) :
  preserves R m1 → preserves R m2 → preserves R (if b then m1 else m2).
Proof. by destruct b. Qed.

Lemma preserves_image_open (path : string) : preserves R (image_open path).
Proof.
  intros s. unfold image_open. destruct (files s !! path) as [[]|]; reflexivity.
Qed.

Lemma preserves_tile_open (k : Z * Z * Z) : preserves R (tile_open k).
Proof. intros s. unfold tile_open. destruct (tiles s !! k); reflexivity. Qed.

Lemma preserves_input (stdin : option bool) : preserves R (input stdin).
Proof. destruct stdin; [apply preserves_ret|apply preserves_raise]. Qed.

End Preserves.

Ltac use lem := apply lem; try exact _.

(** *** What the methods leave alone

    A relation is kept by a method as soon as it is kept by the writes the
    method makes: the directories, the messages it may print and the tiles it
    may store. *)

Section Frame.
Context `{lib : Image.Library}.
Context (R : fs → fs → Prop) `{!PreOrder R}.
Context (printable : message → Prop) (writable : Z * Z * Z → Prop).
Hypothesis R_dirs : ∀ f s, R s (set_dirs f s).
Hypothesis R_print : ∀ m s, printable m → R s (set_stdout (λ out, out ++ [m]) s).
Hypothesis R_tiles : ∀ k im s, writable k → R s (set_tiles (λ ts, <[k := im]> ts) s).
Hypothesis R_metadata : ∀ m s, R s (set_metadata m s).
Hypothesis R_leaflet_config : ∀ c s, R s (set_leaflet_config c s).
Hypothesis printable_reports : ∀ m, is_generating_lod m = false → printable m.

Lemma preserves_makedirs (d : list Z) : preserves R (makedirs d).
Proof. apply preserves_modify. intros s. apply R_dirs. Qed.

Lemma preserves_print (m : message) : printable m → preserves R (print m).
Proof. intros Hm. apply preserves_modify. intros s. by apply R_print. Qed.

Lemma preserves_tile_save (k : Z * Z * Z) (quality : Z) (im : Image.t) :
  writable k → preserves R (tile_save k quality im).
Proof.
  intros Hk. use preserves_bind; [by use preserves_lift|].
  intros stored. apply preserves_modify. intros s. by apply R_tiles.
Qed.

Lemma preserves_base_tile (self : ReforgerTileGenerator) (source_img : Image.t)
    (tile_x tile_y : Z) (box : Z * Z * Z * Z) :
  writable (0, tile_x, tile_y) →
  preserves R (base_tile self source_img tile_x tile_y box).
Proof.
  intros Hk. use preserves_bind; [by use preserves_lift|]. intros tile_img.
  use preserves_bind; [ |].
  - use preserves_if; [by use preserves_lift|by use preserves_ret].
  - intros tile_img'. by apply preserves_tile_save.
Qed.

Lemma preserves_generate_base_tiles (self : ReforgerTileGenerator) :
  (∀ x y, writable (0, x, y)) → preserves R (_generate_base_tiles self).
Proof.
  intros Hk. use preserves_bind; [by use preserves_gets|]. intros found.
  use preserves_if; [by use preserves_raise|].
  use preserves_bind; [ |].
  { use preserves_try_except; [by use preserves_image_open|].
    intros e. use preserves_bind; [ |intros _; by use preserves_raise].
    by apply preserves_print, printable_reports. }
  intros source_img. use preserves_bind; [by use preserves_lift|]. intros ts.
  use preserves_bind; [apply preserves_makedirs|]. intros _.
  use preserves_bind; [ |intros _; by apply preserves_print, printable_reports].
  use preserves_for_each. intros tile_x _.
  use preserves_bind; [apply preserves_makedirs|]. intros _.
  use preserves_for_each. intros tile_y _.
  use preserves_try_except; [by apply preserves_base_tile|].
  intros e. by apply preserves_print, printable_reports.
Qed.

Lemma preserves_combine_quadrant (self : ReforgerTileGenerator)
    (prev_zoom src_x src_y : Z) (combined_img : Image.t) (dx dy : Z) :
  preserves R (combine_quadrant self prev_zoom src_x src_y combined_img dx dy).
Proof.
  use preserves_bind; [by use preserves_gets|]. intros found.
  use preserves_if; [|by use preserves_ret].
  use preserves_bind; [by use preserves_tile_open|]. intros src_tile.
  use preserves_bind; [by use preserves_lift|]. intros src_tile'.
  by use preserves_ret.
Qed.

Lemma preserves_combine_tile (self : ReforgerTileGenerator) (zoom tile_x tile_y : Z) :
  preserves R (combine_tile self zoom tile_x tile_y).
Proof.
  use preserves_foldM. intros im dx _.
  use preserves_foldM. intros im' dy _.
  apply preserves_combine_quadrant.
Qed.

Lemma preserves_generate_zoom_level (self : ReforgerTileGenerator) (zoom : Z) :
  tiles_per_axis self / 2 ^ zoom < 1 ∨ (∀ x y, writable (zoom, x, y)) →
  preserves R (_generate_zoom_level self zoom).
Proof.
  intros Hk. use preserves_bind; [apply preserves_makedirs|]. intros _. cbv zeta.
  destruct (Z.ltb_spec (tiles_per_axis self / 2 ^ zoom) 1) as [|Hge];
    [by use preserves_ret|].
  destruct Hk as [|Hk]; [lia|].
  use preserves_bind; [ |intros _; by apply preserves_print, printable_reports].
  use preserves_for_each. intros tile_x _.
  use preserves_bind; [apply preserves_makedirs|]. intros _.
  use preserves_for_each. intros tile_y _.
  use preserves_bind; [apply preserves_combine_tile|]. intros im.
  by apply preserves_tile_save.
Qed.

Lemma preserves_generate_metadata (self : ReforgerTileGenerator) :
  preserves R (_generate_metadata self).
Proof.
  use preserves_bind; [by use preserves_lift|]. intros resolution.
  apply preserves_modify. intros s. apply R_metadata.
Qed.

Lemma preserves_generate_leaflet_config (self : ReforgerTileGenerator) :
  preserves R (_generate_leaflet_config self).
Proof.
  use preserves_bind; [by use preserves_lift|]. intros scale_factor.
  use preserves_bind; [by use preserves_lift|]. intros offset.
  apply preserves_modify. intros s. apply R_leaflet_config.
Qed.

Lemma preserves_print_statistics (self : ReforgerTileGenerator) :
  preserves R (_print_statistics self).
Proof.
  use preserves_bind; [by use preserves_gets|]. intros n.
  use preserves_if; [by use preserves_raise|by use preserves_ret].
Qed.

(** A run of the generator in which the top level [max_zoom] is not written. *)
Lemma preserves_generate_all_tiles (self : ReforgerTileGenerator) :
  (∀ m, printable m) →
  (∀ z x y, 0 ≤ z < max_zoom self → writable (z, x, y)) →
  0 < max_zoom self →
  tiles_per_axis self / 2 ^ max_zoom self < 1 →
  preserves R (generate_all_tiles self).
Proof.
  intros Hprint Hk Hmax Htop.
  use preserves_bind; [apply preserves_makedirs|]. intros _.
  use preserves_bind; [by apply preserves_print|]. intros _.
  use preserves_bind; [ |].
  { apply preserves_generate_base_tiles. intros x y. apply Hk. lia. }
  intros _. use preserves_bind; [ |].
  { use preserves_for_each. intros zoom Hzoom.
    apply elem_of_range2 in Hzoom.
    use preserves_bind; [by apply preserves_print|]. intros _.
    apply preserves_generate_zoom_level.
    destruct (Z.eq_dec zoom (max_zoom self)) as [->|]; [by left|].
    right. intros x y. apply Hk. lia. }
  intros _. use preserves_bind; [apply preserves_generate_metadata|].
  intros _. use preserves_bind; [apply preserves_generate_leaflet_config|].
  intros _. apply preserves_print_statistics.
Qed.

End Frame.

(** ** The top of the pyramid *)

#[local] Instance same_tiles_at_preorder (zoom : Z) : PreOrder (same_tiles_at zoom).
Proof.
  split; [done|]. intros s1 s2 s3 H12 H23. unfold same_tiles_at in *. congruence.
Qed.

Lemma same_tiles_at_insert (zoom : Z) (k : Z * Z * Z) (im : Image.t) (s : fs) :
  zoom_of k ≠ zoom → same_tiles_at zoom s (set_tiles (λ ts, <[k := im]> ts) s).
Proof.
  intros Hk. unfold same_tiles_at, tiles_at. cbn.
  apply map_filter_insert_not. intros im'. done.
Qed.

Section TopLevel.
Context `{lib : Image.Library}.

(** A level with no tile per axis is left as it is. *)
Lemma generate_zoom_level_nothing (self : ReforgerTileGenerator) (zoom : Z) (s : fs) :
  tiles_per_axis self / 2 ^ zoom < 1 →
  _generate_zoom_level self zoom s =
  (Ok tt, set_dirs (λ ds, ds ∪ list_to_set (prefixes [zoom])) s).
Proof.
  intros Hlt. unfold _generate_zoom_level. rewrite run_bind. cbn.
  by destruct (Z.ltb_spec (tiles_per_axis self / 2 ^ zoom) 1); [|lia].
Qed.

(** A complete run adds no tile to level [max_zoom] and changes none there,
    when that level has no tile per axis. *)
Lemma generate_all_tiles_top_level (self : ReforgerTileGenerator) (s : fs) :
  0 < max_zoom self →
  tiles_per_axis self / 2 ^ max_zoom self < 1 →
  tiles_at (max_zoom self) (generate_all_tiles self s).2 = tiles_at (max_zoom self) s.
Proof.
  intros Hmax Htop.
  apply (preserves_generate_all_tiles (same_tiles_at (max_zoom self)) (λ _, True)
           (λ k, zoom_of k ≠ max_zoom self)); try done.
  - intros k im s' Hk. by apply same_tiles_at_insert.
  - intros z x y Hz. cbn. lia.
Qed.

End TopLevel.

(** C1.  In the reference scenario ([map_size_km = 13],
    [meters_per_tile = 100], [tile_size_px = 542]) the generator has 130
    tiles per axis and [max_zoom = 8].  At zoom 8 the builder computes
    [130 // 256 = 0] tiles per axis and returns: it emits no tile at zoom 8,
    and a complete run leaves the tiles of zoom 8 as they were, so that a
    fresh output directory has none.  The metadata entry of zoom 8 reports
    one tile. *)
Theorem reference_scenario_has_no_tile_at_zoom_8 :
  ∃ self, __init__ "map.png" "public/map-tiles" 13 542 100 = Ok self ∧
    tiles_per_axis self = 130 ∧ max_zoom self = 8 ∧
    tiles_per_axis self / 2 ^ 8 = 0 ∧
    ZoomLevel.totalTiles (zoom_level_entry self 8) = 1 ∧
    ∀ (lib : Image.Library) (s : fs),
      tiles (_generate_zoom_level self 8 s).2 = tiles s ∧
      tiles_at 8 (generate_all_tiles self s).2 = tiles_at 8 s ∧
      (tiles s = ∅ → tiles_at 8 (generate_all_tiles self s).2 = ∅).
Proof.
  eexists. split; [reflexivity|]. do 4 (split; [reflexivity|]).
  intros L s.
  set (self := Generator _ _ _ _ _ _ _ _).
  assert (tiles_at 8 (generate_all_tiles self s).2 = tiles_at 8 s) as Hrun
    by (by apply (generate_all_tiles_top_level self s)).
  split; [|split; [done|]].
  - by rewrite generate_zoom_level_nothing.
  - intros Hempty. rewrite Hrun. unfold tiles_at. rewrite Hempty.
    apply map_filter_empty.
Qed.

(** ** The metadata *)









(** A complete run with the library of the examples: a 3 km map with 1 km
    tiles has 3 tiles per axis and [max_zoom = 2].  The run stores 9 tiles at
    zoom 0, 1 at zoom 1 and none at zoom 2, and its metadata reports one
    tile at zoom 2. *)
Example small_pyramid_run :
  ∃ self, __init__ "map.png" "public/map-tiles" 3 2 1000 = Ok self ∧
    tiles_per_axis self = 3 ∧ max_zoom self = 2 ∧
    let run := generate_all_tiles (lib := Simple.library) self
                 (Simple.source_fs (Simple.gradient 6 6)) in
    run.1 = Ok tt ∧
    size (tiles_at 0 run.2) = 9%nat ∧
    size (tiles_at 1 run.2) = 1%nat ∧
    size (tiles_at 2 run.2) = 0%nat ∧
    ((λ md, ZoomLevel.totalTiles <$> Metadata.zoomLevels md) <$> metadata run.2)
      = Some [9; 1; 1] ∧
    announced_lods run.2 = [GeneratingLOD 0; GeneratingLOD 1; GeneratingLOD 2].
Proof.
  eexists. split; [reflexivity|]. split; [reflexivity|]. split; [reflexivity|].
  cbv zeta. repeat split; by vm_compute.
Qed.

(** ** The loop over the zoom levels *)

#[local] Instance same_announced_lods_preorder : PreOrder same_announced_lods.
Proof.
  split; [done|]. intros s1 s2 s3 H12 H23. unfold same_announced_lods in *. congruence.
Qed.


Section ZoomLoop.
Context `{lib : Image.Library}.



End ZoomLoop.



(** ** A source that cannot be read *)

Section Fatal.
Context `{lib : Image.Library}.

Lemma generate_base_tiles_missing (self : ReforgerTileGenerator) (s : fs) :
  files s !! source_image_path self = None →
  _generate_base_tiles self s = (Raise FileNotFoundError, s).
Proof.
  intros Hnone. unfold _generate_base_tiles, path_exists, gets. rewrite run_bind.
  rewrite Hnone. rewrite bool_decide_false by (intros [? [=]]). done.
Qed.

Lemma generate_base_tiles_unreadable (self : ReforgerTileGenerator) (s : fs) :
  files s !! source_image_path self = Some Unreadable →
  _generate_base_tiles self s =
  (Raise OSError, set_stdout (λ out, out ++ [ErrorLoadingSource OSError]) s).
Proof.
  intros Hbad. unfold _generate_base_tiles, path_exists, gets. rewrite run_bind.
  rewrite Hbad. rewrite bool_decide_true by done. cbn [negb].
  rewrite run_bind. unfold try_except, image_open. rewrite Hbad. done.
Qed.

End Fatal.

(** C8.  When the source image is missing or cannot be opened, [main] prints
    an error and returns exit code 1, and [generate_all_tiles], called on its
    own, raises: in both cases no tile, no metadata and no viewer
    configuration has been written. *)
Theorem unreadable_source_aborts `{lib : Image.Library}
    (splitext_root : string → string) (s : fs) :
  (∀ args stdin,
     files s !! args_source_image args = None ∨
     files s !! args_source_image args = Some Unreadable →
     ∃ s', main splitext_root args stdin s = (Ok 1, s') ∧
           tiles s' = tiles s ∧ metadata s' = metadata s ∧
           leaflet_config s' = leaflet_config s ∧ dirs s' = dirs s ∧
           files s' = files s ∧
           (stdout s' = stdout s ++ [SourceNotFound] ∨
            stdout s' = stdout s ++ [ErrorMessage OSError])) ∧
  (∀ self,
     files s !! source_image_path self = None ∨
     files s !! source_image_path self = Some Unreadable →
     ∃ e s', generate_all_tiles self s = (Raise e, s') ∧
             tiles s' = tiles s ∧ metadata s' = metadata s ∧
             leaflet_config s' = leaflet_config s ∧ files s' = files s).
Proof.
  split.
  - intros args stdin [Hnone|Hbad].
    + eexists. unfold main, path_exists, gets. rewrite run_bind, Hnone.
      rewrite bool_decide_false by (intros [? [=]]). cbn.
      split; [reflexivity|]. cbn. repeat split; by left.
    + eexists. unfold main, path_exists, gets. rewrite run_bind, Hbad.
      rewrite bool_decide_true by done. cbn [negb].
      unfold try_except. rewrite run_bind. unfold image_open at 1. rewrite Hbad.
      cbn. split; [reflexivity|]. cbn. repeat split; by right.
  - intros self [Hnone|Hbad].
    + exists FileNotFoundError. eexists. unfold generate_all_tiles.
      rewrite run_bind. unfold makedirs at 1, modify at 1.
      rewrite run_bind. unfold print at 1, modify at 1. rewrite run_bind.
      rewrite generate_base_tiles_missing by done. split; [reflexivity|]. done.
    + exists OSError. eexists. unfold generate_all_tiles.
      rewrite run_bind. unfold makedirs at 1, modify at 1.
      rewrite run_bind. unfold print at 1, modify at 1. rewrite run_bind.
      rewrite generate_base_tiles_unreadable by done. split; [reflexivity|]. done.
Qed.

Lemma unreadable_source_aborts_on_empty_fs :
  let args := Build_Args "map.png" "public/map-tiles" 13 542 100 None false in
  let self := Generator "map.png" "public/map-tiles" 13 13000 542 100 130 8 in
  (∃ s', main (lib := Simple.library) Simple.splitext_root args None Simple.empty_fs
           = (Ok 1, s') ∧ tiles s' = ∅ ∧ metadata s' = None) ∧
  (∃ e s', generate_all_tiles (lib := Simple.library) self Simple.empty_fs = (Raise e, s') ∧
           tiles s' = ∅ ∧ metadata s' = None).
Proof.
  intros args self.
  destruct (unreadable_source_aborts (lib := Simple.library) Simple.splitext_root
              Simple.empty_fs) as [Hmain Hgen].
  split.
  - destruct (Hmain args None) as (s' & Hrun & Ht & Hm & _); [left; reflexivity|].
    exists s'. split; [exact Hrun|]. split; [exact Ht|exact Hm].
  - destruct (Hgen self) as (e & s' & Hrun & Ht & Hm & _); [left; reflexivity|].
    exists e, s'. split; [exact Hrun|]. split; [exact Ht|exact Hm].
Defined.

(** ** The crop window size *)

(** [int(x)] drops the fractional part of [x]. *)
Lemma float_int_truncates (x : float) (n : Z) :
  float_int x = Ok n →
  ∃ v, float_value x = Some v ∧
       ((0 <= v)%Q → (inject_Z n <= v)%Q ∧ (v < inject_Z (n + 1))%Q) ∧
       ((v <= 0)%Q → (inject_Z (n - 1) < v)%Q ∧ (v <= inject_Z n)%Q).
Proof.
  destruct x as [s|s| |s m e]; cbn; try done.
  - intros [= <-]. exists 0%Q. split; [done|]. split; intros _; split; done.
  - intros [= <-]. eexists. split; [reflexivity|].
    destruct (Z.leb_spec 0 e) as [He|He].
    + unfold Qle, Qlt; cbn. destruct s; cbn; split; intros; split; lia.
    + assert (0 < 2 ^ (- e)) as Hd by (apply Z.pow_pos_nonneg; lia).
      pose proof (Z.mul_div_le (Z.pos m) (2 ^ (- e)) Hd) as Hlo.
      pose proof (Z.mul_succ_div_gt (Z.pos m) (2 ^ (- e)) Hd) as Hhi.
      unfold Qle, Qlt; cbn. rewrite !Z2Pos.id by done.
      destruct s; cbn; split; intros; split; try lia; try nia.
Qed.

(** [round(x)] is [int(x)] or the next integer away from zero. *)
Lemma float_round_near_int (x : float) (n r : Z) :
  float_int x = Ok n → float_round x = Ok r → Z.abs n ≤ Z.abs r ≤ Z.abs n + 1.
Proof.
  destruct x as [s|s| |s m e]; cbn; try done.
  - intros [= <-] [= <-]. lia.
  - intros [= <-] [= <-]. destruct (Z.leb_spec 0 e) as [He|He]; [destruct s; cbn; lia|].
    assert (0 < 2 ^ (- e)) as Hd by (apply Z.pow_pos_nonneg; lia).
    assert (0 ≤ Z.pos m / 2 ^ (- e)) as Hq by (apply Z.div_pos; lia).
    repeat case_match; destruct s; cbn; lia.
Qed.

(** C2, as the claim words it, fails: for a source 8000 pixels wide of a
    13 km map with 100 m tiles, [meters_per_tile * pixels_per_meter] is
    about 61.54; the base tiler takes 61 and rounding gives 62.  For a source
    290 pixels wide of a 1 km map the float product lies just below 29: the
    base tiler takes 28. *)
Lemma tile_source_size_is_not_rounded :
  tile_source_size 8000 13000 100 = Ok 61 ∧
  spec_tile_source_size_px 8000 13000 100 = Ok 62 ∧
  tile_source_size 290 1000 100 = Ok 28 ∧
  spec_tile_source_size_px 290 1000 100 = Ok 29.
Proof. repeat split; by vm_compute. Qed.

(** C2, amended.  The base tiler computes the crop window edge as
    [int(meters_per_tile * pixels_per_meter)] with
    [pixels_per_meter = source_width / map_size_m] in floats: the product with
    its fractional part dropped, for every source width and parameter choice.
    It is the rounded product or differs from it by one. *)
Theorem tile_source_size_truncates (source_width map_size_m meters_per_tile ts : Z) :
  tile_source_size source_width map_size_m meters_per_tile = Ok ts →
  ∃ pixels_per_meter scaled v,
    true_div source_width map_size_m = Ok pixels_per_meter ∧
    int_mul_float meters_per_tile pixels_per_meter = Ok scaled ∧
    float_int scaled = Ok ts ∧
    float_value scaled = Some v ∧
    ((0 <= v)%Q → (inject_Z ts <= v)%Q ∧ (v < inject_Z (ts + 1))%Q) ∧
    ((v <= 0)%Q → (inject_Z (ts - 1) < v)%Q ∧ (v <= inject_Z ts)%Q) ∧
    (∀ r, spec_tile_source_size_px source_width map_size_m meters_per_tile = Ok r →
          Z.abs ts ≤ Z.abs r ≤ Z.abs ts + 1).
Proof.
  unfold tile_source_size, spec_tile_source_size_px.
  destruct (true_div source_width map_size_m) as [ppm|] eqn:Hppm; [cbn|done].
  destruct (int_mul_float meters_per_tile ppm) as [scaled|] eqn:Hscaled; [cbn|done].
  intros Hint. destruct (float_int_truncates scaled ts Hint) as (v & Hv & Hpos & Hneg).
  exists ppm, scaled, v. repeat (split; [done|]).
  intros r Hr. by apply (float_round_near_int scaled).
Qed.

Lemma tile_source_size_truncates_reference :
  ∃ pixels_per_meter scaled v,
    true_div 8000 13000 = Ok pixels_per_meter ∧
    int_mul_float 100 pixels_per_meter = Ok scaled ∧
    float_int scaled = Ok 61 ∧
    float_value scaled = Some v ∧
    ((0 <= v)%Q → (inject_Z 61 <= v)%Q ∧ (v < inject_Z (61 + 1))%Q) ∧
    ((v <= 0)%Q → (inject_Z (61 - 1) < v)%Q ∧ (v <= inject_Z 61)%Q) ∧
    (∀ r, spec_tile_source_size_px 8000 13000 100 = Ok r →
          Z.abs 61 ≤ Z.abs r ≤ Z.abs 61 + 1).
Proof. apply (tile_source_size_truncates 8000 13000 100 61). by vm_compute. Defined.

(** ** The base tiler *)

Lemma result_bind_ok {A B} (a : A) (k : A → result B) : (Ok a ≫= k) = k a.
Proof. reflexivity. Qed.



Section BaseTiler.
Context `{lib : Image.Library}.
Context (self : ReforgerTileGenerator) (source_img : Image.t) (ts : Z).

(** The [try] statement of a cell stores the tile or prints the error. *)
Lemma base_tile_try_run (x y : Z) (box : Z * Z * Z * Z) (s : fs) :
  try_except (base_tile self source_img x y box)
    (λ e, print (ErrorProcessingTile x y e)) s =
  match render_base_tile self source_img box with
  | Ok stored => (Ok tt, set_tiles (λ tl, <[(0, x, y) := stored]> tl) s)
  | Raise e => (Ok tt, set_stdout (λ out, out ++ [ErrorProcessingTile x y e]) s)
  end.
Proof.
  unfold try_except, base_tile, render_base_tile, tile_save.
  rewrite run_lift_bind. destruct (Image.crop source_img box) as [tile_img|e]; [|done].
  rewrite result_bind_ok, run_bind.
  destruct (bool_decide _).
  - unfold lift at 1. destruct (Image.resize tile_img _) as [resized|e]; [|done].
    rewrite result_bind_ok, run_lift_bind. by destruct (Image.save_jpeg 85 resized).
  - rewrite run_ret, result_bind_ok, run_lift_bind.
    by destruct (Image.save_jpeg 85 tile_img).
Qed.

Lemma base_tiles_inv_mono (s0 : fs) (P Q : Z → Z → Prop) (s' : fs) :
  (∀ x y, Q x y → P x y) →
  base_tiles_inv self source_img ts s0 P s' → base_tiles_inv self source_img ts s0 Q s'.
Proof. intros HQP [Hframe Hdone]. split; [done|]. intros x y HQ. by apply Hdone, HQP. Qed.

Lemma base_tiles_inv_init (s0 : fs) : base_tiles_inv self source_img ts s0 (λ _ _, False) s0.
Proof. by split. Qed.

(** The invariant only looks at the tiles and at the console. *)
Lemma base_tiles_inv_dirs (s0 : fs) (P : Z → Z → Prop) (s' : fs) f :
  base_tiles_inv self source_img ts s0 P s' →
  base_tiles_inv self source_img ts s0 P (set_dirs f s').
Proof. done. Qed.

Lemma base_tiles_inv_print (s0 : fs) (P : Z → Z → Prop) (s' : fs) (m : message) :
  base_tiles_inv self source_img ts s0 P s' →
  base_tiles_inv self source_img ts s0 P (set_stdout (λ out, out ++ [m]) s').
Proof.
  intros [Hframe Hdone]. split; [done|]. intros x y HP. specialize (Hdone x y HP).
  unfold base_cell_done in *. destruct (render_base_tile _ _ _); [done|].
  destruct Hdone as [? ?]. split; [done|]. cbn. apply elem_of_app. by left.
Qed.

(** One more cell. *)
Lemma base_tiles_inv_step (s0 : fs) (P : Z → Z → Prop) (s1 : fs) (x y : Z) :
  base_tiles_inv self source_img ts s0 P s1 →
  ∃ s2,
    try_except
      (base_tile self source_img x y
         (crop_box x y ts (Image.width source_img) (Image.height source_img)))
      (λ e, print (ErrorProcessingTile x y e)) s1 = (Ok tt, s2) ∧
    base_tiles_inv self source_img ts s0 (λ a b, P a b ∨ (a = x ∧ b = y)) s2.
Proof.
  intros [Hframe Hdone]. rewrite base_tile_try_run.
  destruct (render_base_tile self source_img
              (crop_box x y ts (Image.width source_img) (Image.height source_img)))
    as [stored|e] eqn:Hrender.
  - eexists. split; [reflexivity|]. split.
    + intros a b e Hraise. cbn. rewrite lookup_insert_ne; [by eapply Hframe|].
      intros [= <- <-]. congruence.
    + intros a b Hab. unfold base_cell_done. cbn.
      destruct (decide ((0, x, y) = (0, a, b))) as [[= <- <-]|Hne].
      * by rewrite Hrender, lookup_insert_eq.
      * rewrite lookup_insert_ne by done.
        destruct Hab as [HP|[-> ->]]; [apply (Hdone a b HP)|done].
  - eexists. split; [reflexivity|]. split; [done|].
    intros a b [HP|[-> ->]].
    + by apply (base_tiles_inv_print s0 P s1), HP.
    + unfold base_cell_done. rewrite Hrender. cbn. split; [by eapply Hframe|].
      apply elem_of_app. right. by left.
Qed.

(** The two loops over the grid. *)
Lemma base_tiles_loops (n : Z) (s : fs) :
  ∃ s',
    for_each (range n) (λ tile_x,
      makedirs [0; tile_x];;
      for_each (range n) (λ tile_y,
        try_except
          (base_tile self source_img tile_x tile_y
             (crop_box tile_x tile_y ts (Image.width source_img)
                (Image.height source_img)))
          (λ e, print (ErrorProcessingTile tile_x tile_y e)))) s = (Ok tt, s') ∧
    base_tiles_inv self source_img ts s (λ x y, x ∈ range n ∧ y ∈ range n) s'.
Proof.
  apply (for_each_returns
           (λ visited s', base_tiles_inv self source_img ts s
                            (λ x y, x ∈ visited ∧ y ∈ range n) s')).
  { eapply base_tiles_inv_mono; [|apply base_tiles_inv_init]. intros x y [Hx _].
    by apply elem_of_nil in Hx. }
  intros vx x s1 Hx Hinv. rewrite run_bind. cbn [makedirs modify].
  destruct (for_each_returns
              (λ vy s', base_tiles_inv self source_img ts s
                          (λ a b, (a ∈ vx ∧ b ∈ range n) ∨ (a = x ∧ b ∈ vy)) s')
              (λ tile_y,
                 try_except
                   (base_tile self source_img x tile_y
                      (crop_box x tile_y ts (Image.width source_img)
                         (Image.height source_img)))
                   (λ e, print (ErrorProcessingTile x tile_y e)))
              (range n)
              (set_dirs (λ ds, ds ∪ list_to_set (prefixes [0; x])) s1))
    as (s2 & Hrun & Hinv2).
  - apply base_tiles_inv_dirs. eapply base_tiles_inv_mono; [|exact Hinv].
    intros a b [?|[_ Hb]]; [done|]. by apply elem_of_nil in Hb.
  - intros vy y s' Hy Hinv'.
    destruct (base_tiles_inv_step s _ s' x y Hinv') as (s2 & Hrun & Hinv2).
    exists s2. split; [done|]. eapply base_tiles_inv_mono; [|exact Hinv2].
    intros a b [?|[-> Hb]]; [by left; left|].
    apply elem_of_app in Hb as [Hb|Hb]; [left; right; done|].
    apply list_elem_of_singleton in Hb as ->. by right.
  - exists s2. split; [done|]. eapply base_tiles_inv_mono; [|exact Hinv2].
    intros a b [Ha Hb]. apply elem_of_app in Ha as [Ha|Ha]; [by left|].
    apply list_elem_of_singleton in Ha as ->. by right.
Qed.

End BaseTiler.

Section BaseTilerRun.
Context `{lib : Image.Library}.

Lemma try_except_image_open (path : string) (handler : exn → prog Image.t) (s : fs)
    (im : Image.t) :
  files s !! path = Some (Readable im) →
  try_except (image_open path) handler s = (Ok im, s).
Proof. intros Hfile. unfold try_except, image_open. by rewrite Hfile. Qed.

Lemma generate_base_tiles_run (self : ReforgerTileGenerator) (s : fs)
    (source_img : Image.t) (ts : Z) :
  files s !! source_image_path self = Some (Readable source_img) →
  tile_source_size (Image.width source_img) (map_size_m self) (meters_per_tile self)
    = Ok ts →
  ∃ s', _generate_base_tiles self s = (Ok tt, s') ∧
        base_tiles_inv self source_img ts s
          (λ x y, x ∈ range (tiles_per_axis self) ∧ y ∈ range (tiles_per_axis self)) s'.
Proof.
  intros Hfile Hts. unfold _generate_base_tiles, path_exists, gets.
  rewrite run_bind, Hfile, bool_decide_true by done. cbn [negb].
  rewrite run_bind, (try_except_image_open _ _ _ _ Hfile).
  rewrite run_lift_bind, Hts, run_bind. cbn [makedirs modify]. rewrite run_bind.
  cbv zeta.
  destruct (base_tiles_loops self source_img ts (tiles_per_axis self)
              (set_dirs (λ ds, ds ∪ list_to_set (prefixes [0])) s))
    as (s' & -> & Hinv).
  eexists. split; [reflexivity|]. by apply base_tiles_inv_print.
Qed.

End BaseTilerRun.




(** With the library of the examples: on a source of 200 by 100 pixels the
    cells below the source are skipped and reported, the others are stored,
    and the run returns. *)
Example base_tiler_skips_cells_below_the_source :
  let self := Generator "map.png" "public/map-tiles" 1 1000 4 250 4 2 in
  ∃ s', _generate_base_tiles (lib := Simple.library) self
          (Simple.source_fs (Simple.gradient 200 100)) = (Ok tt, s') ∧
        is_Some (tiles s' !! (0, 0, 0)) ∧
        is_Some (tiles s' !! (0, 3, 1)) ∧
        tiles s' !! (0, 0, 3) = None ∧
        ErrorProcessingTile 0 3 ValueError ∈ stdout s'.
Proof.
  intros self.
  destruct (generate_base_tiles_run (lib := Simple.library) self
              (Simple.source_fs (Simple.gradient 200 100)) (Simple.gradient 200 100) 50)
    as (s' & Hrun & _ & Hcells); [reflexivity|by vm_compute|].
  exists s'. split; [done|].
  assert (∀ x y, 0 ≤ x < 4 → 0 ≤ y < 4 →
            base_cell_done (lib := Simple.library) self (Simple.gradient 200 100) 50
              (Simple.source_fs (Simple.gradient 200 100)) s' x y) as Hcell.
  { intros x y Hx Hy. apply Hcells. rewrite !elem_of_range. cbn. lia. }
  pose proof (Hcell 0 0 ltac:(lia) ltac:(lia)) as H00.
  pose proof (Hcell 3 1 ltac:(lia) ltac:(lia)) as H31.
  pose proof (Hcell 0 3 ltac:(lia) ltac:(lia)) as H03.
  unfold base_cell_done in *. cbn in H00, H31, H03.
  split; [by rewrite H00|]. split; [by rewrite H31|]. destruct H03 as [-> ?]. done.
Qed.

(** With the library of the examples, whose [crop] accepts an empty box: on
    a source too small for the grid every window is empty, and every tile is
    stored all the same. *)
Example base_tiler_stores_a_tile_for_an_empty_window :
  let self := Generator "map.png" "public/map-tiles" 1 1000 2 500 2 1 in
  tile_source_size 1 1000 500 = Ok 0 ∧
  ¬ positive_area (crop_box 1 1 0 1 1) ∧
  ∃ s', _generate_base_tiles (lib := Simple.library) self
          (Simple.source_fs (Simple.gradient 1 1)) = (Ok tt, s') ∧
        is_Some (tiles s' !! (0, 1, 1)).
Proof.
  intros self. split; [by vm_compute|]. split; [cbn; lia|].
  destruct (generate_base_tiles_run (lib := Simple.library) self
              (Simple.source_fs (Simple.gradient 1 1)) (Simple.gradient 1 1) 0)
    as (s' & Hrun & _ & Hcells); [reflexivity|by vm_compute|].
  exists s'. split; [done|].
  pose proof (Hcells 1 1 ltac:(rewrite !elem_of_range; cbn; lia)) as H11.
  unfold base_cell_done in H11. cbn in H11. by rewrite H11.
Qed.

(** ** The pyramid builder *)

Lemma paste_size (im src : Image.t) (x y : Z) :
  Image.size (Image.paste im src x y) = Image.size im.
Proof. reflexivity. Qed.

Lemma paste_inside (im src : Image.t) (x y i j : Z) :
  x ≤ i < x + Image.width src → y ≤ j < y + Image.height src →
  Image.getpixel (Image.paste im src x y) i j = Image.getpixel src (i - x) (j - y).
Proof.
  intros Hi Hj. cbn.
  destruct (Z.leb_spec x i), (Z.ltb_spec i (x + Image.width src)),
    (Z.leb_spec y j), (Z.ltb_spec j (y + Image.height src)); try lia. done.
Qed.

Lemma paste_outside (im src : Image.t) (x y i j : Z) :
  ¬ (x ≤ i < x + Image.width src ∧ y ≤ j < y + Image.height src) →
  Image.getpixel (Image.paste im src x y) i j = Image.getpixel im i j.
Proof.
  intros Hout. cbn.
  destruct (Z.leb_spec x i), (Z.ltb_spec i (x + Image.width src)),
    (Z.leb_spec y j), (Z.ltb_spec j (y + Image.height src)); try done. lia.
Qed.

Section Combine.
Context `{lib : Image.Library}.
Context (self : ReforgerTileGenerator).

(** One quadrant: the pixels of its square come from the downsampled source
    tile if there is one; all other pixels stay. *)
Lemma with_quadrant_pixels (im : Image.t) (src : option Image.t) (dx dy : Z) :
  (∀ src_tile, src = Some src_tile →
     ∃ r, Image.resize src_tile (half_size self, half_size self) = Ok r ∧
          Image.size r = (half_size self, half_size self)) →
  ∃ im', with_quadrant self im src dx dy = Ok im' ∧
    Image.size im' = Image.size im ∧
    (∀ i j, ¬ (dx * half_size self ≤ i < dx * half_size self + half_size self ∧
               dy * half_size self ≤ j < dy * half_size self + half_size self) →
       Image.getpixel im' i j = Image.getpixel im i j) ∧
    (∀ i j, dx * half_size self ≤ i < dx * half_size self + half_size self →
            dy * half_size self ≤ j < dy * half_size self + half_size self →
       match src with
       | Some src_tile =>
           ∃ r, Image.resize src_tile (half_size self, half_size self) = Ok r ∧
                Image.size r = (half_size self, half_size self) ∧
                Image.getpixel im' i j =
                  Image.getpixel r (i - dx * half_size self) (j - dy * half_size self)
       | None => Image.getpixel im' i j = Image.getpixel im i j
       end).
Proof.
  intros Hresize. unfold with_quadrant. destruct src as [src_tile|].
  - destruct (Hresize src_tile eq_refl) as (r & Hr & Hsize).
    rewrite Hr. pose proof Hsize as [= Hw Hh].
    eexists. split; [reflexivity|]. split; [done|]. split.
    + intros i j Hout. apply paste_outside. by rewrite Hw, Hh.
    + intros i j Hi Hj. exists r. split; [done|]. split; [done|].
      apply paste_inside; [by rewrite Hw|by rewrite Hh].
  - exists im. done.
Qed.

(** The combined tile, quadrant by quadrant. *)
Lemma combined_image_pixels (src : Z → Z → option Image.t) :
  0 ≤ half_size self →
  (∀ dx dy src_tile, (dx = 0 ∨ dx = 1) → (dy = 0 ∨ dy = 1) → src dx dy = Some src_tile →
     ∃ r, Image.resize src_tile (half_size self, half_size self) = Ok r ∧
          Image.size r = (half_size self, half_size self)) →
  ∃ canvas, combined_image self src = Ok canvas ∧
    Image.size canvas = (tile_size_px self, tile_size_px self) ∧
    (∀ dx dy i j, (dx = 0 ∨ dx = 1) → (dy = 0 ∨ dy = 1) →
       0 ≤ i < half_size self → 0 ≤ j < half_size self →
       match src dx dy with
       | Some src_tile =>
           ∃ r, Image.resize src_tile (half_size self, half_size self) = Ok r ∧
                Image.size r = (half_size self, half_size self) ∧
                Image.getpixel canvas (dx * half_size self + i) (dy * half_size self + j)
                  = Image.getpixel r i j
       | None =>
           Image.getpixel canvas (dx * half_size self + i) (dy * half_size self + j)
             = Image.black
       end) ∧
    (∀ i j, ¬ (0 ≤ i < 2 * half_size self ∧ 0 ≤ j < 2 * half_size self) →
       Image.getpixel canvas i j = Image.black).
Proof.
  intros Hhalf Hresize. unfold combined_image.
  destruct (with_quadrant_pixels (Image.new (tile_size_px self) (tile_size_px self))
              (src 0 0) 0 0 (λ t, Hresize 0 0 t (or_introl eq_refl) (or_introl eq_refl)))
    as (im1 & -> & Hs1 & Hout1 & Hin1).
  destruct (with_quadrant_pixels im1 (src 0 1) 0 1
              (λ t, Hresize 0 1 t (or_introl eq_refl) (or_intror eq_refl)))
    as (im2 & Hrun2 & Hs2 & Hout2 & Hin2).
  destruct (with_quadrant_pixels im2 (src 1 0) 1 0
              (λ t, Hresize 1 0 t (or_intror eq_refl) (or_introl eq_refl)))
    as (im3 & Hrun3 & Hs3 & Hout3 & Hin3).
  destruct (with_quadrant_pixels im3 (src 1 1) 1 1
              (λ t, Hresize 1 1 t (or_intror eq_refl) (or_intror eq_refl)))
    as (im4 & Hrun4 & Hs4 & Hout4 & Hin4).
  exists im4. rewrite result_bind_ok, Hrun2, result_bind_ok, Hrun3, result_bind_ok.
  split; [done|]. split; [by rewrite Hs4, Hs3, Hs2, Hs1|]. split.
  - intros dx dy i j [-> | ->] [-> | ->] Hi Hj.
    + specialize (Hin1 (0 * half_size self + i) (0 * half_size self + j)
                    ltac:(lia) ltac:(lia)).
      rewrite Hout4, Hout3, Hout2 by lia.
      destruct (src 0 0) as [t|].
      * destruct Hin1 as (r & Hr & Hsz & Hpix). exists r. split; [done|]. split; [done|].
        rewrite Hpix. f_equal; lia.
      * by rewrite Hin1.
    + specialize (Hin2 (0 * half_size self + i) (1 * half_size self + j)
                    ltac:(lia) ltac:(lia)).
      rewrite Hout4, Hout3 by lia.
      destruct (src 0 1) as [t|].
      * destruct Hin2 as (r & Hr & Hsz & Hpix). exists r. split; [done|]. split; [done|].
        rewrite Hpix. f_equal; lia.
      * rewrite Hin2, Hout1 by lia. done.
    + specialize (Hin3 (1 * half_size self + i) (0 * half_size self + j)
                    ltac:(lia) ltac:(lia)).
      rewrite Hout4 by lia.
      destruct (src 1 0) as [t|].
      * destruct Hin3 as (r & Hr & Hsz & Hpix). exists r. split; [done|]. split; [done|].
        rewrite Hpix. f_equal; lia.
      * rewrite Hin3, Hout2, Hout1 by lia. done.
    + specialize (Hin4 (1 * half_size self + i) (1 * half_size self + j)
                    ltac:(lia) ltac:(lia)).
      destruct (src 1 1) as [t|].
      * destruct Hin4 as (r & Hr & Hsz & Hpix). exists r. split; [done|]. split; [done|].
        rewrite Hpix. f_equal; lia.
      * rewrite Hin4, Hout3, Hout2, Hout1 by lia. done.
  - intros i j Hout. rewrite Hout4, Hout3, Hout2, Hout1 by lia. done.
Qed.


Lemma combine_quadrant_run (prev_zoom src_x src_y : Z) (im : Image.t) (dx dy : Z) (s : fs) :
  combine_quadrant self prev_zoom src_x src_y im dx dy s =
  (with_quadrant self im (tiles s !! (prev_zoom, src_x + dx, src_y + dy)) dx dy, s).
Proof.
  unfold combine_quadrant, with_quadrant, tile_exists, gets. rewrite run_bind.
  destruct (tiles s !! (prev_zoom, src_x + dx, src_y + dy)) as [src_tile|] eqn:Hsrc.
  - rewrite bool_decide_true by done. rewrite run_bind. unfold tile_open. rewrite Hsrc.
    rewrite run_lift_bind. by destruct (Image.resize src_tile _).
  - rewrite bool_decide_false by (intros [? [=]]). done.
Qed.

(** Combining reads the four source tiles and writes nothing. *)
Lemma combine_tile_run (zoom x y : Z) (s : fs) :
  combine_tile self zoom x y s = (combined_image self (source_tiles zoom x y s), s).
Proof.
  unfold combine_tile, combined_image, source_tiles.
  change (range 2) with [0; 1]. cbn [foldM].
  rewrite !run_bind, !combine_quadrant_run.
  destruct (with_quadrant self _ (tiles s !! (zoom - 1, x * 2 + 0, y * 2 + 0)) 0 0)
    as [im1|]; [|done].
  rewrite run_bind, combine_quadrant_run, result_bind_ok.
  destruct (with_quadrant self im1 _ 0 1) as [im2|]; [|done].
  rewrite !run_ret, !run_bind, combine_quadrant_run, result_bind_ok.
  destruct (with_quadrant self im2 _ 1 0) as [im3|]; [|done].
  rewrite !run_bind, combine_quadrant_run, result_bind_ok.
  destruct (with_quadrant self im3 _ 1 1) as [im4|]; done.
Qed.

End Combine.

Section ZoomLevel.
Context `{lib : Image.Library}.
Context (self : ReforgerTileGenerator) (zoom : Z).
Hypothesis resize_ok :
  ∀ im n, 0 < n → ∃ r, Image.resize im (n, n) = Ok r ∧ Image.size r = (n, n).
Hypothesis save_ok : ∀ im, ∃ stored, Image.save_jpeg 85 im = Ok stored.
Hypothesis tile_size_ok : 2 ≤ tile_size_px self.

Lemma half_size_pos : 0 < half_size self.
Proof. unfold half_size. apply Z.div_str_pos. lia. Qed.





End ZoomLevel.

(** ** The library used in the examples *)


Lemma simple_resize_solid (im : Image.t) (c : Image.color) (n : Z) :
  0 < n → 0 < Image.width im → 0 < Image.height im → solid c im →
  ∃ r, Simple.resize im (n, n) = Ok r ∧ Image.size r = (n, n) ∧ solid c r.
Proof.
  intros Hn Hw Hh Hsolid. unfold Simple.resize. destruct (Z.ltb_spec n 1); [lia|]. cbn.
  eexists. split; [reflexivity|]. split; [done|].
  intros i j Hi Hj. cbn in *. apply Hsolid.
  - split; [apply Z.div_pos; nia|]. apply Z.div_lt_upper_bound; nia.
  - split; [apply Z.div_pos; nia|]. apply Z.div_lt_upper_bound; nia.
Qed.




(** C5, as the claim words it, fails for an odd tile size: with
    [tile_size_px = 3] the four quadrants are 1 pixel wide and, from four
    white tiles, pixel (2, 2) of the combined tile is black. *)
Lemma odd_tile_size_leaves_a_seam :
  let self := Generator "map.png" "public/map-tiles" 1 1000 3 500 2 1 in
  let white_tile := Simple.plain Simple.white 3 3 in
  let s := Fs ∅ ∅ {[(0, 0, 0) := white_tile; (0, 0, 1) := white_tile;
                    (0, 1, 0) := white_tile; (0, 1, 1) := white_tile]} None None [] in
  __init__ "map.png" "public/map-tiles" 1 3 500 = Ok self ∧
  solid Simple.white white_tile ∧
  ∃ canvas, (combine_tile (lib := Simple.library) self 1 0 0 s).1 = Ok canvas ∧
            Image.size canvas = (3, 3) ∧
            Image.getpixel canvas 0 0 = Simple.white ∧
            Image.getpixel canvas 2 2 = Image.black ∧
            ¬ solid Simple.white canvas.
Proof.
  intros self white_tile s. split; [reflexivity|]. split; [done|].
  eexists. split; [rewrite combine_tile_run; vm_compute; reflexivity|].
  split; [reflexivity|]. split; [reflexivity|]. split; [reflexivity|].
  intros Hsolid. specialize (Hsolid 2 2 ltac:(cbn; lia) ltac:(cbn; lia)). done.
Qed.

(** C5, amended.  For every colour [C] and every even [tile_size_px ≥ 2],
    combining four source tiles that all have colour [C] gives a tile of
    colour [C]: the four quadrants cover the canvas.  The resampling filter
    is taken to turn an image of one colour into one of that colour. *)
Theorem uniform_block_stays_uniform `{lib : Image.Library}
    (self : ReforgerTileGenerator) (zoom x y : Z) (s : fs) (C : Image.color) :
  (∀ im c n, 0 < n → 0 < Image.width im → 0 < Image.height im → solid c im →
     ∃ r, Image.resize im (n, n) = Ok r ∧ Image.size r = (n, n) ∧ solid c r) →
  2 ≤ tile_size_px self →
  tile_size_px self mod 2 = 0 →
  (∀ dx dy, (dx = 0 ∨ dx = 1) → (dy = 0 ∨ dy = 1) →
     ∃ src_tile, tiles s !! (zoom - 1, x * 2 + dx, y * 2 + dy) = Some src_tile ∧
                 Image.size src_tile = (tile_size_px self, tile_size_px self) ∧
                 solid C src_tile) →
  ∃ canvas, combine_tile self zoom x y s = (Ok canvas, s) ∧
            Image.size canvas = (tile_size_px self, tile_size_px self) ∧
            solid C canvas.
Proof.
  intros Hsolid HT Heven Hsrc.
  pose proof (half_size_pos self HT) as Hhalf.
  assert (tile_size_px self = 2 * half_size self) as Hdouble.
  { unfold half_size. pose proof (Z.div_mod (tile_size_px self) 2 ltac:(lia)). lia. }
  assert (∀ dx dy src_tile, (dx = 0 ∨ dx = 1) → (dy = 0 ∨ dy = 1) →
            source_tiles zoom x y s dx dy = Some src_tile →
            ∃ r, Image.resize src_tile (half_size self, half_size self) = Ok r ∧
                 Image.size r = (half_size self, half_size self) ∧ solid C r) as Hres.
  { intros dx dy src_tile Hdx Hdy Hlook.
    destruct (Hsrc dx dy Hdx Hdy) as (src' & Hlook' & [= Hw Hh] & Hsol).
    unfold source_tiles in Hlook. rewrite Hlook' in Hlook. injection Hlook as <-.
    apply Hsolid; [done|lia|lia|done]. }
  rewrite combine_tile_run.
  destruct (combined_image_pixels self (source_tiles zoom x y s))
    as (canvas & -> & Hsize & Hpix & _); [lia| |].
  { intros dx dy src_tile Hdx Hdy Hlook.
    destruct (Hres dx dy src_tile Hdx Hdy Hlook) as (r & ? & ? & _). by exists r. }
  exists canvas. split; [done|]. split; [done|].
  pose proof Hsize as [= Hw Hh]. intros i j Hi Hj. rewrite Hw in Hi. rewrite Hh in Hj.
  set (dx := if i <? half_size self then 0 else 1).
  set (dy := if j <? half_size self then 0 else 1).
  assert ((dx = 0 ∨ dx = 1) ∧ 0 ≤ i - dx * half_size self < half_size self) as [Hdx Hi'].
  { unfold dx. destruct (Z.ltb_spec i (half_size self)); split; (lia || by auto). }
  assert ((dy = 0 ∨ dy = 1) ∧ 0 ≤ j - dy * half_size self < half_size self) as [Hdy Hj'].
  { unfold dy. destruct (Z.ltb_spec j (half_size self)); split; (lia || by auto). }
  specialize (Hpix dx dy _ _ Hdx Hdy Hi' Hj').
  destruct (Hsrc dx dy Hdx Hdy) as (src_tile & Hlook & _).
  unfold source_tiles in Hpix, Hres. rewrite Hlook in Hpix.
  destruct Hpix as (r & Hr & [= Hrw Hrh] & Hpixel).
  destruct (Hres dx dy src_tile Hdx Hdy Hlook) as (r' & Hr' & _ & Hrsolid).
  rewrite Hr in Hr'. injection Hr' as <-.
  replace i with (dx * half_size self + (i - dx * half_size self)) at 1 by lia.
  replace j with (dy * half_size self + (j - dy * half_size self)) at 1 by lia.
  rewrite Hpixel. apply Hrsolid; [by rewrite Hrw|by rewrite Hrh].
Qed.

Lemma uniform_block_stays_uniform_example :
  let self := Generator "map.png" "public/map-tiles" 1 1000 4 500 2 1 in
  let white_tile := Simple.plain Simple.white 4 4 in
  let s := Fs ∅ ∅ {[(0, 0, 0) := white_tile; (0, 0, 1) := white_tile;
                    (0, 1, 0) := white_tile; (0, 1, 1) := white_tile]} None None [] in
  ∃ canvas, combine_tile (lib := Simple.library) self 1 0 0 s = (Ok canvas, s) ∧
            Image.size canvas = (tile_size_px self, tile_size_px self) ∧
            solid Simple.white canvas.
Proof.
  intros self white_tile s.
  apply (uniform_block_stays_uniform (lib := Simple.library) self 1 0 0 s Simple.white).
  - apply simple_resize_solid.
  - cbn. lia.
  - reflexivity.
  - intros dx dy [-> | ->] [-> | ->]; exists white_tile; split; try reflexivity; by split.
Defined.
